(** * nova-act samples: the Facebook Marketplace response resolver

    A shallow embedding of [src/nova_act/samples/facebook_marketplace.py]:
    the two pydantic models declared at lines 34-42 and the part of [main]
    that consumes the extraction result (lines 90-130).

    The values handed to the validators are JSON-like Python values
    ([result.parsed_response]); the validators are the ones pydantic v2
    derives from the two class declarations with its default configuration
    (lax mode, [extra = 'ignore'], every declared field required).

    The second half of the file follows the whole of [main] (lines 45-133)
    through its collaborators (the environment, the picker, the browser
    session and the agent) and the script [load_env.py]. *)

From stdpp Require Import base gmap strings list pretty.

#[local] Set Warnings "-register-all".
#[local] Open Scope string_scope.
#[local] Open Scope list_scope.

(** ** JSON-like Python values *)

(** [result.parsed_response] is [None] or what a JSON decoder returns: [None],
    [bool], [int], [float], [str], [list] and [dict] with string keys.  A
    float is kept as a mantissa and a binary exponent; no validator below
    ever looks inside a number. *)
Inductive json : Type :=
| JNull
| JBool (b : bool)
| JInt (n : Z)
| JFloat (m e : Z)
| JStr (s : string)
| JArr (l : list json)
| JObj (o : gmap string json).

(** ** pydantic: errors and validators *)

(** The [type] of one line of a [ValidationError], for the four kinds that
    the two models can produce. *)
Inductive ErrorType : Type :=
| missing        (* Field required *)
| string_type    (* Input should be a valid string *)
| list_type      (* Input should be a valid list *)
| model_type.    (* Input should be a valid dictionary or instance of <model> *)

(** One step of an error location: a field name or a list index. *)
Inductive LocItem : Type :=
| LKey (k : string)
| LIdx (i : nat).

Record ErrorDetails : Type := mkErrorDetails {
  err_type : ErrorType;
  err_loc : list LocItem;
  err_input : json
}.

(** The exception raised by [model_validate]: the name of the model and the
    errors of every line, in validation order. *)
Record ValidationError : Type := mkValidationError {
  err_title : string;
  err_lines : list ErrorDetails
}.

(** A validator either yields a value or the list of its line errors. *)
Inductive result (A : Type) : Type :=
| Valid (a : A)
| Invalid (errs : list ErrorDetails).
Arguments Valid {A} a.
Arguments Invalid {A} errs.

Definition validator (A : Type) : Type := json → result A.

Definition errors_of {A} (r : result A) : list ErrorDetails :=
  match r with
  | Valid _ => []
  | Invalid errs => errs
  end.

(** An inner error is reported under the location of the enclosing field
    or index. *)
Definition with_loc (p : LocItem) (e : ErrorDetails) : ErrorDetails :=
  mkErrorDetails (err_type e) (p :: err_loc e) (err_input e).

Definition at_loc {A} (p : LocItem) (r : result A) : result A :=
  match r with
  | Valid a => Valid a
  | Invalid errs => Invalid (with_loc p <$> errs)
  end.

(** [str] in lax mode: of the JSON-like values only a [str] is accepted
    (numbers are not coerced). *)
Definition str_validator : validator string :=
  λ v, match v with
       | JStr s => Valid s
       | _ => Invalid [mkErrorDetails string_type [] v]
       end.

(** The elements of a list are all validated; the errors of every failing
    element are collected under its index. *)
Fixpoint list_items {A} (item : validator A) (i : nat) (l : list json)
  : result (list A) :=
  match l with
  | [] => Valid []
  | x :: l' =>
      match at_loc (LIdx i) (item x), list_items item (S i) l' with
      | Valid a, Valid rest => Valid (a :: rest)
      | r, rs => Invalid (errors_of r ++ errors_of rs)
      end
  end.

(** [List[T]]: of the JSON-like values only a [list] is accepted. *)
Definition list_validator {A} (item : validator A) : validator (list A) :=
  λ v, match v with
       | JArr l => list_items item 0 l
       | _ => Invalid [mkErrorDetails list_type [] v]
       end.

(** A required field [name] of the dict [o]: absent, the error is [missing]
    with the whole dict as input; present, its value is validated. *)
Definition required_field {A} (name : string) (val : validator A)
    (o : gmap string json) : result A :=
  match o !! name with
  | None => Invalid [mkErrorDetails missing [LKey name] (JObj o)]
  | Some v => at_loc (LKey name) (val v)
  end.

(** ** The two models (lines 34-42) *)

(** [class MarketplaceItem(BaseModel)]: four required [str] fields. *)
Record MarketplaceItem : Type := mkMarketplaceItem {
  title : string;
  price : string;
  location : string;
  time_posted : string
}.

(** [class MarketplaceItems(BaseModel)]: [items: List[MarketplaceItem]]. *)
Record MarketplaceItems : Type := mkMarketplaceItems {
  items : list MarketplaceItem
}.

(** The fields are validated in declaration order, all of them, and the
    errors of all are reported; keys of the dict that name no field are
    never looked at. *)
Definition MarketplaceItem_validator : validator MarketplaceItem :=
  λ v, match v with
       | JObj o =>
           match required_field "title" str_validator o,
                 required_field "price" str_validator o,
                 required_field "location" str_validator o,
                 required_field "time_posted" str_validator o with
           | Valid t, Valid p, Valid l, Valid tp =>
               Valid (mkMarketplaceItem t p l tp)
           | rt, rp, rl, rtp =>
               Invalid (errors_of rt ++ errors_of rp
                          ++ errors_of rl ++ errors_of rtp)
           end
       | _ => Invalid [mkErrorDetails model_type [] v]
       end.

Definition MarketplaceItems_validator : validator MarketplaceItems :=
  λ v, match v with
       | JObj o =>
           match required_field "items"
                   (list_validator MarketplaceItem_validator) o with
           | Valid l => Valid (mkMarketplaceItems l)
           | Invalid errs => Invalid errs
           end
       | _ => Invalid [mkErrorDetails model_type [] v]
       end.

(** ** A small monad for the statements of [main] *)

(** What one call of [print] writes.  The text of [f"...{e}"] for a caught
    exception [e] is pydantic's rendering of [e]; the log keeps the prefix
    and [e] itself. *)
Inductive printed : Type :=
| Line (s : string)
| LineExc (prefix : string) (e : ValidationError).

(** How a block of statements ends: normally, or with a raised exception
    (the only exception this part of [main] can raise is pydantic's). *)
Inductive completion (A : Type) : Type :=
| Normal (a : A)
| Raised (e : ValidationError).
Arguments Normal {A} a.
Arguments Raised {A} e.

(** A block of statements takes the standard output written so far and
    gives the standard output after it and its completion. *)
Definition Py (A : Type) : Type := list printed → list printed * completion A.

#[export] Instance Py_ret : MRet Py := λ A a out, (out, Normal a).

#[export] Instance Py_bind : MBind Py := λ A B k m out,
  match m out with
  | (out', Normal a) => k a out'
  | (out', Raised e) => (out', Raised e)
  end.

Definition raise {A} (e : ValidationError) : Py A := λ out, (out, Raised e).

Definition print (s : string) : Py () := λ out, (out ++ [Line s], Normal ()).

Definition print_exc (prefix : string) (e : ValidationError) : Py () :=
  λ out, (out ++ [LineExc prefix e], Normal ()).

(** [try: body / except Exception [as e]: handler e]. *)
Definition try_except {A} (body : Py A) (handler : ValidationError → Py A)
  : Py A := λ out,
  match body out with
  | (out', Normal a) => (out', Normal a)
  | (out', Raised e) => handler e out'
  end.

(** [for x in l: body x]. *)
Fixpoint for_each {A} (body : A → Py ()) (l : list A) : Py () :=
  match l with
  | [] => mret ()
  | x :: l' => body x;; for_each body l'
  end.

(** [[f x for x in l]]: the first exception ends the comprehension. *)
Fixpoint comprehension {A B} (f : A → Py B) (l : list A) : Py (list B) :=
  match l with
  | [] => mret []
  | x :: l' => y ← f x; ys ← comprehension f l'; mret (y :: ys)
  end.

(** [Model.model_validate(v)]: the model, or a [ValidationError] titled
    with the name of the model. *)
Definition model_validate {A} (name : string) (val : validator A) (v : json)
  : Py A :=
  match val v with
  | Valid a => mret a
  | Invalid errs => raise (mkValidationError name errs)
  end.

Definition MarketplaceItem_model_validate : json → Py MarketplaceItem :=
  model_validate "MarketplaceItem" MarketplaceItem_validator.

Definition MarketplaceItems_model_validate : json → Py MarketplaceItems :=
  model_validate "MarketplaceItems" MarketplaceItems_validator.

(** ** Presentation (lines 92-99, repeated at 105-112 and 118-125) *)

(** [enumerate(l, start)]. *)
Fixpoint enumerate {A} (start : nat) (l : list A) : list (nat * A) :=
  match l with
  | [] => []
  | x :: l' => (start, x) :: enumerate (S start) l'
  end.

(** [s * n]. *)
Fixpoint str_mul (s : string) (n : nat) : string :=
  match n with
  | O => ""
  | S n' => s +:+ str_mul s n'
  end.

Definition header : string :=
  String (Ascii.ascii_of_nat 10) "First 5 Facebook Marketplace items (filtered results):".

Definition print_item (entry : nat * MarketplaceItem) : Py () :=
  let '(i, item) := entry in
  print (pretty i +:+ ". " +:+ title item);;
  print ("   Price: " +:+ price item);;
  print ("   Location: " +:+ location item);;
  print ("   Posted: " +:+ time_posted item);;
  print "".

Definition print_items (l : list MarketplaceItem) : Py () :=
  print header;;
  print (str_mul "-" 60);;
  for_each print_item (enumerate 1 l).

(** ** The resolver (lines 90-130) *)

(** The response object of the extraction call. *)
Record ActResult : Type := mkActResult {
  matches_schema : bool;
  parsed_response : json;
  response : string
}.

(** The outcome the specification gives a name to: the list that was
    printed, or the raw response that was printed with the caught error
    when there is one. *)
Inductive ParseOutcome : Type :=
| Success (records : list MarketplaceItem)
| Failure (raw_response : string) (error_detail : option ValidationError).

(** The validation that a run reached last: line 91, line 104, or the
    list interpretation of lines 116-117. *)
Inductive Strategy : Type :=
| Primary
| Secondary
| Tertiary.

(** Line 91: the attempt under [if result.matches_schema]. *)
Definition primary_attempt (candidate : json) : Py MarketplaceItems :=
  MarketplaceItems_model_validate candidate.

(** Line 104: the attempt in the [else] branch. *)
Definition secondary_attempt (candidate : json) : Py MarketplaceItems :=
  MarketplaceItems_model_validate candidate.

(** Line 117: every element validated as one item. *)
Definition tertiary_attempt (l : list json) : Py (list MarketplaceItem) :=
  comprehension MarketplaceItem_model_validate l.

(** Lines 90-130, statement by statement.  The Python block returns
    nothing; here each branch ends by returning the strategy it reached and
    the outcome it has just printed. *)
Definition main_tail (result : ActResult) : Py (Strategy * ParseOutcome) :=
  if matches_schema result then
    its ← primary_attempt (parsed_response result);
    print_items (items its);;
    mret (Primary, Success (items its))
  else
    try_except
      (its ← secondary_attempt (parsed_response result);
       print_items (items its);;
       mret (Secondary, Success (items its)))
      (λ _,
        try_except
          (match parsed_response result with
           | JArr l =>
               items_list ← tertiary_attempt l;
               print_items items_list;;
               mret (Tertiary, Success items_list)
           | _ =>
               print ("Failed to extract items: " +:+ response result);;
               mret (Tertiary, Failure (response result) None)
           end)
          (λ e,
            print_exc "Error parsing response: " e;;
            print ("Raw response: " +:+ response result);;
            mret (Tertiary, Failure (response result) (Some e)))).

(** [resolve candidate schema_matched_hint raw_text], run on the standard
    output [out]. *)
Definition resolve_on (out : list printed) (candidate : json)
    (schema_matched_hint : bool) (raw_text : string)
  : list printed * completion (Strategy * ParseOutcome) :=
  main_tail (mkActResult schema_matched_hint candidate raw_text) out.

(** The outcome of [resolve]; [Raised e] is a fault that escapes to the
    caller. *)
Definition resolve (candidate : json) (schema_matched_hint : bool)
    (raw_text : string) : completion ParseOutcome :=
  match (resolve_on [] candidate schema_matched_hint raw_text).2 with
  | Normal (_, outcome) => Normal outcome
  | Raised e => Raised e
  end.

(** The strategy that produced the outcome of [resolve]. *)
Definition resolve_via (candidate : json) (schema_matched_hint : bool)
    (raw_text : string) : option Strategy :=
  match (resolve_on [] candidate schema_matched_hint raw_text).2 with
  | Normal (via, _) => Some via
  | Raised _ => None
  end.

(** What the presentation layer shows for an outcome. *)
Definition present (outcome : ParseOutcome) : list printed :=
  match outcome with
  | Success l => (print_items l []).1
  | Failure raw None => [Line ("Failed to extract items: " +:+ raw)]
  | Failure raw (Some e) =>
      [LineExc "Error parsing response: " e; Line ("Raw response: " +:+ raw)]
  end.

(** ** The specification's reading of the two shapes *)

Definition required_fields : list string :=
  ["title"; "price"; "location"; "time_posted"].

(** The JSON object of a record: exactly the four fields. *)
Definition json_of_item (r : MarketplaceItem) : json :=
  JObj (<["title" := JStr (title r)]>
       (<["price" := JStr (price r)]>
       (<["location" := JStr (location r)]>
       (<["time_posted" := JStr (time_posted r)]> ∅)))).

(** [x] is a well-formed Record-shaped object carrying the record [r]: a
    keyed object whose four required fields are present and are the
    strings of [r]; other keys are not constrained. *)
Definition record_shaped (x : json) (r : MarketplaceItem) : Prop :=
  ∃ o : gmap string json,
    x = JObj o ∧
    o !! "title" = Some (JStr (title r)) ∧
    o !! "price" = Some (JStr (price r)) ∧
    o !! "location" = Some (JStr (location r)) ∧
    o !! "time_posted" = Some (JStr (time_posted r)).

(** [x] is an object that lacks one of the four required fields. *)
Definition missing_required_field (x : json) : Prop :=
  ∃ (o : gmap string json) (f : string),
    x = JObj o ∧ f ∈ required_fields ∧ o !! f = None.

(** [x] is an element of the candidate under one of its two list readings:
    the list under the key [items], or the candidate itself. *)
Definition element_of_candidate (x : json) (candidate : json) : Prop :=
  (∃ (o : gmap string json) (l : list json),
      candidate = JObj o ∧ o !! "items" = Some (JArr l) ∧ x ∈ l)
  ∨ (∃ l : list json, candidate = JArr l ∧ x ∈ l).

(** Specification, section 3: a Record has four required string fields and
    the absence of any of them invalidates it. *)
Definition spec_Record (x : json) : option MarketplaceItem :=
  match x with
  | JObj o =>
      match o !! "title", o !! "price", o !! "location", o !! "time_posted"
      with
      | Some (JStr t), Some (JStr p), Some (JStr l), Some (JStr tp) =>
          Some (mkMarketplaceItem t p l tp)
      | _, _, _, _ => None
      end
  | _ => None
  end.

(** Specification, section 4.1 steps 1 and 2: the candidate is read as
    [{items: [...]}] and every element is validated against Record. *)
Definition spec_keyed_items (candidate : json)
  : option (list MarketplaceItem) :=
  match candidate with
  | JObj o =>
      match o !! "items" with
      | Some (JArr l) => mapM spec_Record l
      | _ => None
      end
  | _ => None
  end.

(** Specification, section 4.1 step 3: the candidate is itself a sequence
    and every element is validated against Record. *)
Definition spec_bare_sequence (candidate : json)
  : option (list MarketplaceItem) :=
  match candidate with
  | JArr l => mapM spec_Record l
  | _ => None
  end.

(** The record of the specification's example,
    [Record(Desk, $20, City, 2 days)]. *)
Definition desk : MarketplaceItem :=
  mkMarketplaceItem "Desk" "$20" "City" "2 days".

(** The same listing as the extraction agent may return it, with a key
    that the schema does not declare. *)
Definition desk_with_url : gmap string json :=
  <["url" := JStr "https://example.com/desk"]>
    (<["title" := JStr "Desk"]>
    (<["price" := JStr "$20"]>
    (<["location" := JStr "City"]>
    (<["time_posted" := JStr "2 days"]> ∅)))).

(** ** The process environment (line 31; [load_env.py], line 4) *)

(** [load_dotenv()] with python-dotenv's default [override=False]: the
    variables that the [.env] file gives a value are added to the process
    environment, and a variable that the process already has keeps its
    value. *)
Definition load_dotenv (dotenv environ : gmap string string)
  : gmap string string := environ ∪ dotenv.

(** [os.getenv(key)] after [load_dotenv()]. *)
Definition os_getenv (dotenv environ : gmap string string) (key : string)
  : option string := load_dotenv dotenv environ !! key.

(** [f"{v}"] for a value that is a [str] or [None]. *)
Definition format_opt (v : option string) : string :=
  match v with
  | Some s => s
  | None => "None"
  end.

(** [load_env.py], the whole script. *)
Definition load_env (dotenv environ : gmap string string) : Py () :=
  print ("NOVA_ACT_API_KEY: "
         +:+ format_opt (os_getenv dotenv environ "NOVA_ACT_API_KEY"));;
  print ("NOVA_ACT_SKIP_PLAYWRIGHT_INSTALL: "
         +:+ format_opt (os_getenv dotenv environ
                           "NOVA_ACT_SKIP_PLAYWRIGHT_INSTALL")).

(** ** The whole of [main] (lines 45-133) *)

(** What [main] does to the outside, in order: the picker, the browser
    session, the instructions given to the agent, the standard output and
    the wait for Enter. *)
Inductive event : Type :=
| EPrompt (options : list string) (fzf_options : string)
| EStart (starting_page user_data_dir : string)
         (headless clone_user_data_dir : bool)
| EAct (instruction : string) (with_schema : bool)
| EPrint (p : printed)
| EInput (prompt : string)
| EStop.

(** The exceptions of [main]: its own [ValueError], the agent's failure of
    an [act] call, and pydantic's. *)
Inductive exn : Type :=
| ValueError (msg : string)
| ActError (msg : string)
| ValidationFault (e : ValidationError).

(** What [nova.act] does with an instruction: it returns a result or
    raises. *)
Inductive act_reply : Type :=
| Replied (r : ActResult)
| ActFailed (msg : string).

(** The collaborators of one run: the process environment and the [.env]
    file, the lines selected in the picker (none when it is dismissed), and
    the agent.  The picker, the start of the session and [input] are taken
    to return. *)
Record World : Type := mkWorld {
  environ : gmap string string;
  dotenv : gmap string string;
  fzf_selection : list string;
  agent : string → act_reply
}.

Inductive ending (A : Type) : Type :=
| Returned (a : A)
| Uncaught (e : exn).
Arguments Returned {A} a.
Arguments Uncaught {A} e.

(** A block of [main] takes the events so far and gives the events after
    it and how it ended. *)
Definition Proc (A : Type) : Type := list event → list event * ending A.

#[export] Instance Proc_ret : MRet Proc := λ A a tr, (tr, Returned a).

#[export] Instance Proc_bind : MBind Proc := λ A B k m tr,
  match m tr with
  | (tr', Returned a) => k a tr'
  | (tr', Uncaught e) => (tr', Uncaught e)
  end.

Definition throw {A} (e : exn) : Proc A := λ tr, (tr, Uncaught e).

Definition emit (ev : event) : Proc () := λ tr, (tr ++ [ev], Returned ()).

(** A block that prints and may raise a validation error, inside [main]:
    what it prints goes to the events. *)
Definition lift_Py {A} (m : Py A) : Proc A := λ tr,
  match m [] with
  | (out, Normal a) => (tr ++ (EPrint <$> out), Returned a)
  | (out, Raised e) => (tr ++ (EPrint <$> out), Uncaught (ValidationFault e))
  end.

(** [FzfPrompt().prompt(options, fzf_options)]. *)
Definition fzf_prompt (w : World) (options : list string)
    (fzf_options : string) : Proc (list string) :=
  emit (EPrompt options fzf_options);; mret (fzf_selection w).

(** [nova.act(instruction)] and [nova.act(instruction, schema=...)]. *)
Definition act (w : World) (instruction : string) (with_schema : bool)
  : Proc ActResult :=
  emit (EAct instruction with_schema);;
  match agent w instruction with
  | Replied r => mret r
  | ActFailed msg => throw (ActError msg)
  end.

(** [input(prompt)]. *)
Definition input (prompt : string) : Proc () := emit (EInput prompt).

(** [with NovaAct(...) as nova: body]: the session is stopped when the
    body is left, also by an exception, which goes on to the caller. *)
Definition with_NovaAct {A} (starting_page user_data_dir : string)
    (headless clone_user_data_dir : bool) (body : Proc A) : Proc A :=
  λ tr,
  let '(tr', r) :=
    body (tr ++ [EStart starting_page user_data_dir headless
                   clone_user_data_dir]) in
  (tr' ++ [EStop], r).

(** [needle in s] for two strings. *)
Fixpoint str_contains (needle s : string) : bool :=
  String.prefix needle s ||
  match s with
  | EmptyString => false
  | String _ s' => str_contains needle s'
  end.

Definition dquote : string := String (Ascii.ascii_of_nat 34) EmptyString.

Definition mode_options : list string :=
  ["Headless (background, faster)"; "Visible (you can see the browser)"].

Definition user_data_dir_error : string :=
  "USER_DATA_DIR must be provided either as parameter or in .env file".

Definition open_marketplace : string :=
  "Click on Marketplace in the left sidebar or navigation menu.".

Definition search_for (search_item : string) : string :=
  "Search for " +:+ dquote +:+ search_item +:+ dquote +:+ ".".

Definition open_sale_date : string :=
  "Click on 'date de mise en vente ' to open sale date.".

Definition last_24_hours : string :=
  "Select the option to show items  posted in the last 24 hours.".

Definition extract_items : string :=
  "Get the first 5 marketplace items from the search results. For each item, extract the title, price, location, and only the time portion from "
  +:+ dquote +:+ "Publié il y a" +:+ dquote
  +:+ " (for example: if you see "
  +:+ dquote +:+ "Publié il y a une semaine dans Montréal, QC" +:+ dquote
  +:+ ", extract only " +:+ dquote +:+ "une semaine" +:+ dquote
  +:+ "). If no time is found, use "
  +:+ dquote +:+ "Date not specified" +:+ dquote +:+ ".".

(** Lines 68-133, the body of the [with] statement. *)
Definition session_body (w : World) (headless : bool) (search_item : string)
  : Proc () :=
  act w open_marketplace false;;
  act w (search_for search_item) false;;
  act w open_sale_date false;;
  act w last_24_hours false;;
  result ← act w extract_items true;
  lift_Py (main_tail result);;
  if negb headless then input "Press Enter to close the browser..."
  else mret ().

(** Lines 45-133. *)
Definition main (w : World) (user_data_dir : option string)
    (headless : option bool) (search_item : string) : Proc () :=
  user_data_dir ←
    match user_data_dir with
    | Some dir => mret dir
    | None =>
        match os_getenv (dotenv w) (environ w) "USER_DATA_DIR" with
        | Some dir => mret dir
        | None => throw (ValueError user_data_dir_error)
        end
    end;
  headless ←
    match headless with
    | Some b => mret b
    | None =>
        choice ← fzf_prompt w mode_options
                   "--prompt='Select browser mode: '";
        if match choice with
           | [] => false
           | first :: _ => str_contains "Visible" first
           end
        then mret false
        else mret true
    end;
  with_NovaAct "https://facebook.com" user_data_dir headless false
    (session_body w headless search_item).

(** ** Reading a run *)

(** The instructions given to the agent, in order. *)
Definition acts_of (tr : list event) : list (string * bool) :=
  omap (λ ev, match ev with
              | EAct instruction with_schema =>
                  Some (instruction, with_schema)
              | _ => None
              end) tr.

(** What was printed, in order. *)
Definition prints_of (tr : list event) : list printed :=
  omap (λ ev, match ev with EPrint p => Some p | _ => None end) tr.

(** The directory and mode of the sessions started, in order. *)
Definition sessions_of (tr : list event) : list (string * bool) :=
  omap (λ ev, match ev with
              | EStart _ dir headless _ => Some (dir, headless)
              | _ => None
              end) tr.

(** The pickers shown, in order. *)
Definition prompts_of (tr : list event) : list (list string * string) :=
  omap (λ ev, match ev with
              | EPrompt options fzf_options => Some (options, fzf_options)
              | _ => None
              end) tr.

(** The prompts of [input], in order. *)
Definition inputs_of (tr : list event) : list string :=
  omap (λ ev, match ev with EInput prompt => Some prompt | _ => None end) tr.

Definition is_session_event (ev : event) : bool :=
  match ev with
  | EStart _ _ _ _ | EStop => true
  | _ => false
  end.

(** The script of one run: the five instructions, the last one with the
    schema. *)
Definition script (search_item : string) : list (string * bool) :=
  [(open_marketplace, false); (search_for search_item, false);
   (open_sale_date, false); (last_24_hours, false); (extract_items, true)].

(** The five lines of one entry of the list. *)
Definition entry_lines (i : nat) (item : MarketplaceItem) : list printed :=
  [Line (pretty i +:+ ". " +:+ title item);
   Line ("   Price: " +:+ price item);
   Line ("   Location: " +:+ location item);
   Line ("   Posted: " +:+ time_posted item);
   Line ""].




(** A block only appends to the standard output, and neither what it
    appends nor how it completes depends on what was written before. *)
Definition appends {A} (m : Py A) : Prop :=
  ∀ out, m out = (out ++ (m []).1, (m []).2).

(** ** The monad: every block built from the combinators only appends *)

Lemma appends_mret {A} (a : A) : appends (mret a : Py A).
Proof. intros out. cbn. by rewrite app_nil_r. Qed.

Lemma appends_raise {A} (e : ValidationError) : appends (raise e : Py A).
Proof. intros out. cbn. by rewrite app_nil_r. Qed.

Lemma appends_print (s : string) : appends (print s).
Proof. by intros out. Qed.


Lemma appends_bind {A B} (m : Py A) (k : A → Py B) :
  appends m → (∀ a, appends (k a)) → appends (m ≫= k).
Proof.
  intros Hm Hk out. unfold mbind, Py_bind. rewrite (Hm out).
  destruct (m []) as [w [a|e]]; simpl; [|done].
  rewrite (Hk a (out ++ w)), (Hk a w). simpl. by rewrite app_assoc.
Qed.


Lemma appends_for_each {A} (body : A → Py ()) (l : list A) :
  (∀ x, appends (body x)) → appends (for_each body l).
Proof.
  intros Hbody. induction l as [|x l IH]; simpl.
  - apply appends_mret.
  - apply appends_bind; [apply Hbody | intros _; apply IH].
Qed.
Lemma appends_comprehension {A B} (f : A → Py B) (l : list A) :
  (∀ x, appends (f x)) → appends (comprehension f l).
Proof.
  intros Hf. induction l as [|x l IH]; simpl.
  - apply appends_mret.
  - apply appends_bind; [apply Hf|]. intros y.
    apply appends_bind; [apply IH|]. intros ys. apply appends_mret.
Qed.

Lemma appends_model_validate {A} (name : string) (val : validator A)
    (v : json) : appends (model_validate name val v).
Proof.
  unfold model_validate. destruct (val v); [apply appends_mret|].
  apply appends_raise.
Qed.

Lemma appends_print_item (entry : nat * MarketplaceItem) :
  appends (print_item entry).
Proof.
  destruct entry as [i item]. unfold print_item.
  repeat (apply appends_bind; [apply appends_print | intros _]).
  apply appends_print.
Qed.

Lemma appends_print_items (l : list MarketplaceItem) :
  appends (print_items l).
Proof.
  unfold print_items.
  repeat (apply appends_bind; [apply appends_print | intros _]).
  apply appends_for_each, appends_print_item.
Qed.


(** ** The validators against the specification's reading *)

Lemma at_loc_valid {A} (p : LocItem) (r : result A) (a : A) :
  at_loc p r = Valid a ↔ r = Valid a.
Proof. by destruct r. Qed.

Lemma required_str_valid (name : string) (o : gmap string json) (s : string) :
  required_field name str_validator o = Valid s ↔ o !! name = Some (JStr s).
Proof.
  unfold required_field. destruct (o !! name) as [v|]; [|done].
  rewrite at_loc_valid. destruct v; simpl; split; congruence.
Qed.

Lemma MarketplaceItem_validator_spec (x : json) (r : MarketplaceItem) :
  MarketplaceItem_validator x = Valid r ↔ spec_Record x = Some r.
Proof.
  destruct x as [| | | | |l|o]; simpl; try done. split.
  - destruct (required_field "title" _ o) as [t|] eqn:Ht;
    destruct (required_field "price" _ o) as [p|] eqn:Hp;
    destruct (required_field "location" _ o) as [lo|] eqn:Hl;
    destruct (required_field "time_posted" _ o) as [tp|] eqn:Htp;
      try discriminate.
    apply required_str_valid in Ht, Hp, Hl, Htp.
    rewrite Ht, Hp, Hl, Htp. congruence.
  - destruct (o !! "title") as [[| | | |t| |]|] eqn:Ht; try discriminate.
    destruct (o !! "price") as [[| | | |p| |]|] eqn:Hp; try discriminate.
    destruct (o !! "location") as [[| | | |lo| |]|] eqn:Hl; try discriminate.
    destruct (o !! "time_posted") as [[| | | |tp| |]|] eqn:Htp;
      try discriminate.
    apply required_str_valid in Ht, Hp, Hl, Htp.
    rewrite Ht, Hp, Hl, Htp. congruence.
Qed.

Lemma list_items_valid {A} (item : validator A) (i : nat) (l : list json)
    (rs : list A) :
  list_items item i l = Valid rs ↔ Forall2 (λ x r, item x = Valid r) l rs.
Proof.
  revert i rs. induction l as [|x l IH]; intros i rs; simpl.
  - split; [intros [= <-]; constructor|].
    intros ->%Forall2_nil_inv_l. done.
  - destruct (at_loc (LIdx i) (item x)) as [a|ea] eqn:Hx.
    + apply at_loc_valid in Hx.
      destruct (list_items item (S i) l) as [rest|er] eqn:Hl.
      * split.
        -- intros [= <-]. apply IH in Hl. by constructor.
        -- intros (r & rs' & Hr & Hrs & ->)%Forall2_cons_inv_l.
           apply (IH (S i)) in Hrs. congruence.
      * split; [done|].
        intros (r & rs' & Hr & Hrs & ->)%Forall2_cons_inv_l.
        apply (IH (S i)) in Hrs. congruence.
    + split; [by destruct (list_items item (S i) l)|].
      intros (r & rs' & Hr & Hrs & ->)%Forall2_cons_inv_l.
      apply (at_loc_valid (LIdx i)) in Hr. congruence.
Qed.

Lemma Forall2_validator_spec (l : list json) (rs : list MarketplaceItem) :
  Forall2 (λ x r, MarketplaceItem_validator x = Valid r) l rs ↔
  mapM spec_Record l = Some rs.
Proof.
  rewrite mapM_Some.
  split; intros H; (eapply Forall2_impl; [exact H|]); intros x r;
    apply MarketplaceItem_validator_spec.
Qed.

Lemma MarketplaceItems_validator_spec (c : json) (rs : list MarketplaceItem) :
  MarketplaceItems_validator c = Valid (mkMarketplaceItems rs) ↔
  spec_keyed_items c = Some rs.
Proof.
  destruct c as [| | | | |l|o]; simpl; try done.
  unfold required_field. destruct (o !! "items") as [v|]; [|done].
  destruct v as [| | | | |l|o']; simpl; try done.
  rewrite <- Forall2_validator_spec, <- (list_items_valid _ 0).
  destruct (list_items MarketplaceItem_validator 0 l) as [rs'|errs];
    simpl; split; congruence.
Qed.

Lemma record_shaped_spec (x : json) (r : MarketplaceItem) :
  record_shaped x r ↔ spec_Record x = Some r.
Proof.
  split.
  - intros (o & -> & Ht & Hp & Hl & Htp). simpl.
    rewrite Ht, Hp, Hl, Htp. by destruct r.
  - destruct x as [| | | | |l|o]; simpl; try done.
    destruct (o !! "title") as [[| | | |t| |]|] eqn:Ht; try discriminate.
    destruct (o !! "price") as [[| | | |p| |]|] eqn:Hp; try discriminate.
    destruct (o !! "location") as [[| | | |lo| |]|] eqn:Hl; try discriminate.
    destruct (o !! "time_posted") as [[| | | |tp| |]|] eqn:Htp;
      try discriminate.
    intros [= <-]. by exists o.
Qed.

Lemma missing_field_spec (x : json) :
  missing_required_field x → spec_Record x = None.
Proof.
  intros (o & f & -> & Hf & Hnone). simpl. unfold required_fields in Hf.
  repeat (apply elem_of_cons in Hf as [->|Hf]);
    [..|by apply elem_of_nil in Hf]; rewrite Hnone;
    repeat case_match; done.
Qed.

(** ** Running the blocks *)

Lemma model_validate_run {A} (name : string) (val : validator A) (v : json)
    (out : list printed) :
  model_validate name val v out =
  (out, match val v with
        | Valid a => Normal a
        | Invalid errs => Raised (mkValidationError name errs)
        end).
Proof. unfold model_validate. by destruct (val v). Qed.

Lemma print_entries_completes (l : list MarketplaceItem) (i : nat)
    (out : list printed) :
  (for_each print_item (enumerate i l) out).2 = Normal ().
Proof.
  revert i out. induction l as [|x l IH]; intros i out; [done|].
  cbn. apply IH.
Qed.

Lemma print_items_completes (l : list MarketplaceItem) (out : list printed) :
  (print_items l out).2 = Normal ().
Proof. unfold print_items. cbn. apply print_entries_completes. Qed.

Lemma print_items_run (l : list MarketplaceItem) (out : list printed) :
  print_items l out = (out ++ present (Success l), Normal ()).
Proof.
  rewrite (appends_print_items l out). simpl. f_equal.
  apply print_items_completes.
Qed.

Lemma tertiary_attempt_cons (x : json) (l : list json) (out : list printed) :
  tertiary_attempt (x :: l) out =
  match MarketplaceItem_validator x with
  | Valid r =>
      match tertiary_attempt l out with
      | (out', Normal rs) => (out', Normal (r :: rs))
      | (out', Raised e) => (out', Raised e)
      end
  | Invalid errs => (out, Raised (mkValidationError "MarketplaceItem" errs))
  end.
Proof.
  unfold tertiary_attempt. simpl. unfold mbind at 1, Py_bind at 1.
  unfold MarketplaceItem_model_validate at 1. rewrite model_validate_run.
  destruct (MarketplaceItem_validator x); [|done].
  unfold mbind, Py_bind.
  by destruct (comprehension MarketplaceItem_model_validate l out)
    as [out' [rs|e]].
Qed.

Lemma tertiary_attempt_silent (l : list json) (out : list printed) :
  (tertiary_attempt l out).1 = out.
Proof.
  induction l as [|x l IH]; [done|]. rewrite tertiary_attempt_cons.
  destruct (MarketplaceItem_validator x); [|done].
  by destruct (tertiary_attempt l out) as [out' [rs|e]].
Qed.

Lemma tertiary_attempt_run (l : list json) (out : list printed) :
  tertiary_attempt l out = (out, (tertiary_attempt l []).2).
Proof.
  pose proof (appends_comprehension MarketplaceItem_model_validate l
                (λ x, appends_model_validate _ _ x) out) as Hrun.
  fold (tertiary_attempt l) in Hrun. rewrite Hrun.
  by rewrite tertiary_attempt_silent, app_nil_r.
Qed.

Lemma tertiary_attempt_normal (l : list json) (rs : list MarketplaceItem) :
  (tertiary_attempt l []).2 = Normal rs ↔ mapM spec_Record l = Some rs.
Proof.
  rewrite <- Forall2_validator_spec. revert rs.
  induction l as [|x l IH]; intros rs.
  - cbn. split; [intros [= <-]; constructor|].
    by intros ->%Forall2_nil_inv_l.
  - rewrite tertiary_attempt_cons.
    destruct (MarketplaceItem_validator x) as [r|errs] eqn:Hx.
    + destruct (tertiary_attempt l []) as [out' [rs'|e]] eqn:Hl; simpl in *.
      * split.
        -- intros [= <-]. constructor; [done|]. by apply IH.
        -- intros (r' & rs'' & Hr & Hrs & ->)%Forall2_cons_inv_l.
           apply IH in Hrs. congruence.
      * split; [done|].
        intros (r' & rs'' & Hr & Hrs & ->)%Forall2_cons_inv_l.
        apply IH in Hrs. congruence.
    + simpl. split; [done|].
      intros (r' & rs'' & Hr & Hrs & ->)%Forall2_cons_inv_l. congruence.
Qed.

(** The exception of the list interpretation is that of the first element
    that does not validate. *)
Lemma tertiary_attempt_raised (l : list json) (e : ValidationError) :
  (tertiary_attempt l []).2 = Raised e →
  ∃ (l1 : list json) (x : json) (l2 : list json),
    l = l1 ++ x :: l2 ∧
    is_Some (mapM spec_Record l1) ∧
    MarketplaceItem_validator x = Invalid (err_lines e) ∧
    err_title e = "MarketplaceItem".
Proof.
  induction l as [|x l IH]; [done|]. rewrite tertiary_attempt_cons.
  destruct (MarketplaceItem_validator x) as [r|errs] eqn:Hx.
  - destruct (tertiary_attempt l []) as [out' [rs'|e']] eqn:Hl; [done|].
    simpl in *. intros [= ->].
    destruct (IH eq_refl) as (l1 & y & l2 & -> & [rs1 Hl1] & Hy & Ht).
    exists (x :: l1), y, l2. split_and!; [done| |done|done].
    exists (r :: rs1). apply mapM_Some. constructor.
    + by apply MarketplaceItem_validator_spec.
    + by apply mapM_Some.
  - simpl. intros [= <-]. exists [], x, l. by split_and!.
Qed.

Lemma resolve_on_unfold (out : list printed) (c : json) (hint : bool)
    (raw : string) :
  resolve_on out c hint raw =
  match MarketplaceItems_validator c with
  | Valid its =>
      (out ++ present (Success (items its)),
       Normal (if hint then Primary else Secondary, Success (items its)))
  | Invalid errs =>
      if hint then (out, Raised (mkValidationError "MarketplaceItems" errs))
      else
        match c with
        | JArr l =>
            match (tertiary_attempt l []).2 with
            | Normal rs =>
                (out ++ present (Success rs), Normal (Tertiary, Success rs))
            | Raised e =>
                (out ++ present (Failure raw (Some e)),
                 Normal (Tertiary, Failure raw (Some e)))
            end
        | _ =>
            (out ++ present (Failure raw None),
             Normal (Tertiary, Failure raw None))
        end
  end.
Proof.
  unfold resolve_on, main_tail, primary_attempt, secondary_attempt,
    MarketplaceItems_model_validate. simpl.
  destruct hint; unfold try_except, mbind, Py_bind;
    rewrite model_validate_run;
    destruct (MarketplaceItems_validator c) as [its|errs];
    rewrite ?print_items_run; try done.
  destruct c as [| | | | |l|o]; try reflexivity.
  rewrite tertiary_attempt_run.
  destruct (tertiary_attempt l []).2 as [rs|e].
  - by rewrite print_items_run.
  - cbn. by rewrite <- app_assoc.
Qed.

Lemma resolve_unfold (c : json) (hint : bool) (raw : string) :
  resolve c hint raw =
  match MarketplaceItems_validator c with
  | Valid its => Normal (Success (items its))
  | Invalid errs =>
      if hint then Raised (mkValidationError "MarketplaceItems" errs)
      else
        match c with
        | JArr l =>
            match (tertiary_attempt l []).2 with
            | Normal rs => Normal (Success rs)
            | Raised e => Normal (Failure raw (Some e))
            end
        | _ => Normal (Failure raw None)
        end
  end.
Proof.
  unfold resolve. rewrite resolve_on_unfold.
  destruct (MarketplaceItems_validator c) as [its|errs]; [done|].
  destruct hint; [done|].
  destruct c as [| | | | |l|o]; try done.
  by destruct (tertiary_attempt l []).2.
Qed.




Lemma keyed_items_invalid (c : json) :
  spec_keyed_items c = None →
  ∃ errs, MarketplaceItems_validator c = Invalid errs.
Proof.
  intros Hnone.
  destruct (MarketplaceItems_validator c) as [[rs]|errs] eqn:Hc; [|by eexists].
  apply MarketplaceItems_validator_spec in Hc. congruence.
Qed.

Lemma tertiary_attempt_fails (l : list json) :
  mapM spec_Record l = None → ∃ e, (tertiary_attempt l []).2 = Raised e.
Proof.
  intros Hnone. destruct (tertiary_attempt l []).2 as [rs|e] eqn:Hl;
    [|by eexists].
  apply tertiary_attempt_normal in Hl. congruence.
Qed.


Lemma malformed_element_list (x : json) (l : list json) :
  x ∈ l → missing_required_field x → mapM spec_Record l = None.
Proof.
  intros Hx Hmiss. apply mapM_None, Exists_exists.
  exists x. split; [done|]. by apply missing_field_spec.
Qed.

(** ** The claims *)

(** C1, as the code has it: with [schema_matched_hint] false, [resolve]
    returns a ParseOutcome for every candidate and no validation fault
    escapes; with the hint true, the candidate is validated once as
    [{items: [...]}] outside any handler, so a candidate that validates
    gives Success and the fault of one that does not escapes to the
    caller. *)
Theorem resolve_catches_faults_without_hint (c : json) (raw : string) :
  (∃ outcome, resolve c false raw = Normal outcome) ∧
  resolve c true raw =
    match MarketplaceItems_validator c with
    | Valid its => Normal (Success (items its))
    | Invalid errs => Raised (mkValidationError "MarketplaceItems" errs)
    end.
Proof.
  rewrite !resolve_unfold. split; [|done].
  destruct (MarketplaceItems_validator c) as [its|errs]; [by eexists|].
  destruct c as [| | | | |l|o]; try by eexists.
  destruct (tertiary_attempt l []).2; by eexists.
Qed.

(** C1 fails as stated: with the hint true, the scalar candidate of the
    specification's own example makes the validation fault escape. *)
Lemma resolve_fault_escapes_with_hint :
  resolve (JStr "not json-like") true "not json-like" =
  Raised (mkValidationError "MarketplaceItems"
            [mkErrorDetails model_type [] (JStr "not json-like")]).
Proof. reflexivity. Qed.



(** C3, as the code has it: when an element of the candidate (of the list
    under [items], or of the candidate itself when it is a sequence) lacks
    one of the four required fields, [resolve] returns no Success at all,
    so no record list with a part of the input.  Without the hint the
    failed attempt is followed by the rest of the chain and the outcome is
    Failure; with the hint the fault of the failed attempt is raised. *)
Theorem malformed_element_never_in_success (c x : json) (raw : string) :
  element_of_candidate x c →
  missing_required_field x →
  (∀ hint rs, resolve c hint raw ≠ Normal (Success rs)) ∧
  (∃ detail, resolve c false raw = Normal (Failure raw detail)) ∧
  (∃ e, resolve c true raw = Raised e).
Proof.
  intros Helem Hmiss.
  assert (spec_keyed_items c = None ∧ spec_bare_sequence c = None)
    as [Hkeyed Hbare].
  { destruct Helem as [(o & l & -> & Hitems & Hx)|(l & -> & Hx)]; simpl.
    - rewrite Hitems. split; [|done]. by eapply malformed_element_list.
    - split; [done|]. by eapply malformed_element_list. }
  destruct (keyed_items_invalid _ Hkeyed) as [errs Hc].
  assert (∃ detail, resolve c false raw = Normal (Failure raw detail))
    as [detail Hfalse].
  { rewrite resolve_unfold, Hc.
    destruct c as [| | | | |l|o]; try by eexists.
    destruct (tertiary_attempt_fails l Hbare) as [e ->]. by eexists. }
  assert (resolve c true raw
          = Raised (mkValidationError "MarketplaceItems" errs)) as Htrue.
  { by rewrite resolve_unfold, Hc. }
  split_and!; [|by eexists..].
  intros [] rs; congruence.
Qed.

Lemma malformed_element_never_in_success_witness :
  (∀ hint rs, resolve (JArr [json_of_item desk; JObj ∅]) hint "raw"
              ≠ Normal (Success rs)) ∧
  (∃ detail, resolve (JArr [json_of_item desk; JObj ∅]) false "raw"
             = Normal (Failure "raw" detail)) ∧
  (∃ e, resolve (JArr [json_of_item desk; JObj ∅]) true "raw" = Raised e).
Proof.
  apply (malformed_element_never_in_success
           (JArr [json_of_item desk; JObj ∅]) (JObj ∅) "raw").
  - right. exists [json_of_item desk; JObj ∅]. split; [reflexivity|].
    apply list_elem_of_further, list_elem_of_here.
  - exists ∅, "title". split; [reflexivity|].
    split; [apply list_elem_of_here | reflexivity].
Defined.

(** C3 fails as stated: with the hint true, a candidate with an element
    without fields neither falls through to another strategy nor ends in
    Failure; the fault is raised. *)
Lemma malformed_element_raises_with_hint :
  element_of_candidate (JObj ∅) (JArr [JObj ∅]) ∧
  missing_required_field (JObj ∅) ∧
  resolve_via (JArr [JObj ∅]) true "raw" = None ∧
  resolve (JArr [JObj ∅]) true "raw" =
    Raised (mkValidationError "MarketplaceItems"
              [mkErrorDetails model_type [] (JArr [JObj ∅])]).
Proof.
  split_and!; [| |done..].
  - right. exists [JObj ∅]. split; [done|]. apply list_elem_of_here.
  - exists ∅, "title". split; [done|]. split; [apply list_elem_of_here|done].
Qed.






(** C6, as the code has it: for every candidate that is neither a valid
    keyed-items object nor a valid bare sequence, when
    [schema_matched_hint] is false [resolve] returns Failure whose
    raw_response is the raw text of the response.  When the candidate is a
    sequence, error_detail is the validation error of the bare-sequence
    attempt, which is that of its first element that does not validate and
    the last one raised; when the candidate is not a sequence, no
    validation error is kept and error_detail is None. *)
Theorem invalid_candidate_failure_without_hint (c : json) (raw : string) :
  spec_keyed_items c = None →
  spec_bare_sequence c = None →
  match c with
  | JArr l =>
      ∃ e, resolve c false raw = Normal (Failure raw (Some e)) ∧
           (tertiary_attempt l []).2 = Raised e ∧
           ∃ (l1 : list json) (x : json) (l2 : list json),
             l = l1 ++ x :: l2 ∧
             is_Some (mapM spec_Record l1) ∧
             MarketplaceItem_model_validate x [] = ([], Raised e)
  | _ => resolve c false raw = Normal (Failure raw None)
  end.
Proof.
  intros Hkeyed Hbare. rewrite resolve_unfold.
  destruct (keyed_items_invalid _ Hkeyed) as [errs ->].
  destruct c as [| | | | |l|o]; try done.
  destruct (tertiary_attempt_fails l Hbare) as [e He]. rewrite He.
  exists e. split_and!; [done..|].
  destruct (tertiary_attempt_raised l e He) as (l1 & x & l2 & ? & ? & Hx & Ht).
  exists l1, x, l2. split_and!; [done..|].
  unfold MarketplaceItem_model_validate. rewrite model_validate_run, Hx.
  destruct e as [t lines]. simpl in *. by rewrite Ht.
Qed.

Lemma invalid_candidate_failure_without_hint_witness :
  resolve (JStr "not json-like") false "not json-like"
    = Normal (Failure "not json-like" None) ∧
  ∃ e, resolve (JArr [json_of_item desk; JInt 5]) false "raw"
         = Normal (Failure "raw" (Some e)) ∧
       (tertiary_attempt [json_of_item desk; JInt 5] []).2 = Raised e ∧
       ∃ (l1 : list json) (x : json) (l2 : list json),
         [json_of_item desk; JInt 5] = l1 ++ x :: l2 ∧
         is_Some (mapM spec_Record l1) ∧
         MarketplaceItem_model_validate x [] = ([], Raised e).
Proof.
  split.
  - apply (invalid_candidate_failure_without_hint
             (JStr "not json-like") "not json-like"); reflexivity.
  - apply (invalid_candidate_failure_without_hint
             (JArr [json_of_item desk; JInt 5]) "raw"); reflexivity.
Defined.

(** C6 fails as stated: for the scalar candidate of the specification's
    example the last validation error is the one of the
    [{items: [...]}] attempt, and the Failure carries no error detail;
    with the hint true there is no Failure at all. *)
Lemma scalar_failure_has_no_detail :
  spec_keyed_items (JStr "not json-like") = None ∧
  spec_bare_sequence (JStr "not json-like") = None ∧
  (secondary_attempt (JStr "not json-like") []).2 =
    Raised (mkValidationError "MarketplaceItems"
              [mkErrorDetails model_type [] (JStr "not json-like")]) ∧
  resolve (JStr "not json-like") false "not json-like" =
    Normal (Failure "not json-like" None) ∧
  resolve (JStr "not json-like") true "not json-like" =
    Raised (mkValidationError "MarketplaceItems"
              [mkErrorDetails model_type [] (JStr "not json-like")]).
Proof. by split_and!. Qed.

(** C7: the secondary attempt (line 104) is the same function of the
    candidate as the primary attempt (line 91), and both are the
    specification's reading of the candidate as [{items: [...]}] with every
    element validated against Record: each succeeds exactly when that
    reading does, with the same record list. *)
Theorem secondary_attempt_same_as_primary (c : json) (out : list printed) :
  secondary_attempt c out = primary_attempt c out ∧
  (∀ rs, secondary_attempt c out = (out, Normal (mkMarketplaceItems rs)) ↔
         spec_keyed_items c = Some rs) ∧
  (∀ rs, primary_attempt c out = (out, Normal (mkMarketplaceItems rs)) ↔
         spec_keyed_items c = Some rs).
Proof.
  split; [done|].
  assert (∀ rs, MarketplaceItems_model_validate c out
                = (out, Normal (mkMarketplaceItems rs)) ↔
                spec_keyed_items c = Some rs) as Hrun; [|by split].
  intros rs. rewrite <- MarketplaceItems_validator_spec.
  unfold MarketplaceItems_model_validate. rewrite model_validate_run.
  destruct (MarketplaceItems_validator c); split; congruence.
Qed.


(** C9: validation of a record ignores extra fields.  An object whose four
    required fields are strings validates to the record of these four
    strings, and it still validates to the same record with any further
    key added; the record has the four fields and nothing else. *)
Theorem extra_fields_ignored (o : gmap string json) (r : MarketplaceItem)
    (k : string) (v : json) :
  record_shaped (JObj o) r →
  k ∉ required_fields →
  MarketplaceItem_validator (JObj o) = Valid r ∧
  MarketplaceItem_validator (JObj (<[k := v]> o)) = Valid r ∧
  ∀ out, MarketplaceItem_model_validate (JObj (<[k := v]> o)) out
         = (out, Normal r).
Proof.
  intros Hshape Hk.
  assert (record_shaped (JObj (<[k := v]> o)) r) as Hshape'.
  { destruct Hshape as (o' & [= <-] & Ht & Hp & Hl & Htp).
    unfold required_fields in Hk.
    repeat (apply not_elem_of_cons in Hk as [? Hk]).
    exists (<[k := v]> o). by rewrite !lookup_insert_ne. }
  apply record_shaped_spec, MarketplaceItem_validator_spec in Hshape, Hshape'.
  split_and!; [done..|]. intros out.
  unfold MarketplaceItem_model_validate.
  by rewrite model_validate_run, Hshape'.
Qed.

Lemma extra_fields_ignored_witness :
  MarketplaceItem_validator (json_of_item desk) = Valid desk ∧
  MarketplaceItem_validator (JObj desk_with_url) = Valid desk ∧
  ∀ out, MarketplaceItem_model_validate (JObj desk_with_url) out
         = (out, Normal desk).
Proof.
  apply (extra_fields_ignored
           (<["title" := JStr "Desk"]>
           (<["price" := JStr "$20"]>
           (<["location" := JStr "City"]>
           (<["time_posted" := JStr "2 days"]> ∅))))
           desk "url" (JStr "https://example.com/desk")).
  - eexists. split; [reflexivity|]. repeat split; reflexivity.
  - unfold required_fields. intros Hin.
    repeat (apply elem_of_cons in Hin as [Hin|Hin]; [discriminate Hin|]).
    by apply elem_of_nil in Hin.
Defined.

(** C10: for the empty bare sequence with [schema_matched_hint] false, the
    [{items: [...]}] attempt fails, the sequence check passes and
    [resolve] returns Success with the empty list from the tertiary
    strategy. *)
Theorem empty_sequence_success (raw : string) :
  (secondary_attempt (JArr []) []).2 =
    Raised (mkValidationError "MarketplaceItems"
              [mkErrorDetails model_type [] (JArr [])]) ∧
  (tertiary_attempt [] []).2 = Normal [] ∧
  resolve_via (JArr []) false raw = Some Tertiary ∧
  resolve (JArr []) false raw = Normal (Success []).
Proof. by split_and!. Qed.

(** ** Further properties of the resolver *)

(** X1: a Success is never made up.  When [resolve] returns Success, the
    candidate is a keyed object with a list under [items], or it is a bare
    sequence and the hint is false, and the records are those of the
    elements of that list, one for one and in order. *)
Theorem success_inversion (c : json) (hint : bool) (raw : string)
    (rs : list MarketplaceItem) :
  resolve c hint raw = Normal (Success rs) →
  ∃ l : list json,
    ((∃ o : gmap string json, c = JObj o ∧ o !! "items" = Some (JArr l))
     ∨ (c = JArr l ∧ hint = false)) ∧
    Forall2 record_shaped l rs ∧
    length rs = length l.
Proof.
  rewrite resolve_unfold. intros Hres.
  assert (∀ l, mapM spec_Record l = Some rs →
               Forall2 record_shaped l rs ∧ length rs = length l) as Hlist.
  { intros l Hl. apply mapM_Some in Hl.
    split; [|symmetry; by eapply Forall2_length].
    eapply Forall2_impl; [exact Hl|]. intros x r. apply record_shaped_spec. }
  destruct (MarketplaceItems_validator c) as [[rs']|errs] eqn:Hc.
  - injection Hres as ->. apply MarketplaceItems_validator_spec in Hc.
    destruct c as [| | | | |l|o]; try discriminate. simpl in Hc.
    destruct (o !! "items") as [[| | | | |l|o']|] eqn:Hitems;
      try discriminate.
    exists l. split; [left; by exists o|]. by apply Hlist.
  - destruct hint; [discriminate|].
    destruct c as [| | | | |l|o]; try discriminate.
    destruct (tertiary_attempt l []).2 as [rs'|e] eqn:Hl; [|discriminate].
    injection Hres as ->. apply tertiary_attempt_normal in Hl.
    exists l. split; [by right|]. by apply Hlist.
Qed.

Lemma success_inversion_witness :
  ∃ l : list json,
    ((∃ o : gmap string json,
         JArr [json_of_item desk; JObj desk_with_url] = JObj o ∧
         o !! "items" = Some (JArr l))
     ∨ (JArr [json_of_item desk; JObj desk_with_url] = JArr l ∧
        false = false)) ∧
    Forall2 record_shaped l [desk; desk] ∧
    length [desk; desk] = length l.
Proof.
  apply (success_inversion (JArr [json_of_item desk; JObj desk_with_url])
           false "raw" [desk; desk]).
  reflexivity.
Defined.



(** ** The printed list *)

Lemma print_item_run (i : nat) (item : MarketplaceItem) (out : list printed) :
  print_item (i, item) out = (out ++ entry_lines i item, Normal ()).
Proof.
  unfold print_item, entry_lines, mbind, Py_bind, print.
  by rewrite <- !app_assoc.
Qed.

Lemma print_entries_run (l : list MarketplaceItem) (i : nat)
    (out : list printed) :
  for_each print_item (enumerate i l) out =
  (out ++ concat ((λ e, entry_lines e.1 e.2) <$> enumerate i l), Normal ()).
Proof.
  revert i out. induction l as [|x l IH]; intros i out.
  - cbn. by rewrite app_nil_r.
  - cbn [enumerate for_each]. unfold mbind at 1, Py_bind at 1.
    rewrite print_item_run, IH. cbn [fmap list_fmap concat fst snd].
    by rewrite <- !app_assoc.
Qed.

Lemma present_success_lines (l : list MarketplaceItem) :
  present (Success l) =
  [Line header; Line (str_mul "-" 60)]
    ++ concat ((λ e, entry_lines e.1 e.2) <$> enumerate 1 l).
Proof.
  unfold present, print_items. unfold mbind, Py_bind. cbn [print app].
  by rewrite print_entries_run.
Qed.

Lemma entries_length (l : list MarketplaceItem) (i : nat) :
  length (concat ((λ e, entry_lines e.1 e.2) <$> enumerate i l))
  = 5 * length l.
Proof.
  revert i. induction l as [|x l IH]; intros i; [done|].
  cbn [enumerate fmap list_fmap concat entry_lines app length fst snd].
  rewrite IH. lia.
Qed.

Lemma entries_lookup (l : list MarketplaceItem) (i k : nat)
    (r : MarketplaceItem) :
  l !! k = Some r →
  take 5 (drop (5 * k)
            (concat ((λ e, entry_lines e.1 e.2) <$> enumerate i l)))
  = entry_lines (i + k) r.
Proof.
  revert i k. induction l as [|x l IH]; intros i k Hk; [done|].
  destruct k as [|k].
  - injection Hk as ->. by rewrite Nat.add_0_r.
  - replace (5 * S k) with (5 + 5 * k) by lia.
    replace (i + S k) with (S i + k) by lia.
    cbn [enumerate fmap list_fmap concat entry_lines app fst snd].
    rewrite <- (IH (S i) k Hk). done.
Qed.

(** X3: every record of a Success is printed, not only five of them: the
    list takes the two lines of the header and five lines for each
    record. *)
Theorem present_success_length (l : list MarketplaceItem) :
  length (present (Success l)) = 2 + 5 * length l.
Proof.
  rewrite present_success_lines, length_app, entries_length. done.
Qed.

(** X4: the records are printed in order and numbered from 1: the record
    at position [k] of the list has the five lines that start at line
    [2 + 5 * k], and its first line carries the number [k + 1]. *)
Theorem present_success_entry (l : list MarketplaceItem) (k : nat)
    (r : MarketplaceItem) :
  l !! k = Some r →
  take 5 (drop (2 + 5 * k) (present (Success l))) =
  [Line (pretty (S k) +:+ ". " +:+ title r);
   Line ("   Price: " +:+ price r);
   Line ("   Location: " +:+ location r);
   Line ("   Posted: " +:+ time_posted r);
   Line ""].
Proof.
  intros Hk. rewrite present_success_lines.
  cbn [app drop Nat.add]. by rewrite (entries_lookup l 1 k r Hk).
Qed.

Lemma present_success_entry_witness :
  take 5 (drop (2 + 5 * 1) (present (Success [desk; desk]))) =
  [Line (pretty 2 +:+ ". " +:+ title desk);
   Line ("   Price: " +:+ price desk);
   Line ("   Location: " +:+ location desk);
   Line ("   Posted: " +:+ time_posted desk);
   Line ""].
Proof. apply (present_success_entry [desk; desk] 1 desk). reflexivity. Defined.



(** ** The environment *)

Lemma os_getenv_precedence (file env : gmap string string) (key : string) :
  os_getenv file env key =
  match env !! key with
  | Some v => Some v
  | None => file !! key
  end.
Proof.
  unfold os_getenv, load_dotenv. rewrite lookup_union.
  by destruct (env !! key), (file !! key).
Qed.

(** X6: [load_env.py] prints two lines, the API key first.  Each variable
    is shown with its value in the process environment when it has one,
    else with the value the [.env] file gives it, else as [None]; the
    [.env] file never replaces a value of the process environment. *)
Theorem load_env_prints (file env : gmap string string)
    (out : list printed) :
  load_env file env out =
  (out ++
   [Line ("NOVA_ACT_API_KEY: " +:+
          format_opt match env !! "NOVA_ACT_API_KEY" with
                     | Some v => Some v
                     | None => file !! "NOVA_ACT_API_KEY"
                     end);
    Line ("NOVA_ACT_SKIP_PLAYWRIGHT_INSTALL: " +:+
          format_opt match env !! "NOVA_ACT_SKIP_PLAYWRIGHT_INSTALL" with
                     | Some v => Some v
                     | None => file !! "NOVA_ACT_SKIP_PLAYWRIGHT_INSTALL"
                     end)],
   Normal ()).
Proof.
  unfold load_env, mbind, Py_bind, print.
  by rewrite !os_getenv_precedence, <- app_assoc.
Qed.

(** X7: the output of [load_env.py] does not tell a variable that is not
    set from one that is set to the text [None]: when the [.env] file does
    not name the API key, the script prints the same lines whether the
    process environment has the key set to [None] or not at all. *)
Theorem load_env_none_ambiguous (file env : gmap string string)
    (out : list printed) :
  file !! "NOVA_ACT_API_KEY" = None →
  load_env file (<["NOVA_ACT_API_KEY" := "None"]> env) out
  = load_env file (delete "NOVA_ACT_API_KEY" env) out.
Proof.
  intros Hfile. rewrite !load_env_prints.
  rewrite lookup_insert_eq, lookup_delete_eq, Hfile.
  by rewrite lookup_insert_ne, lookup_delete_ne.
Qed.

Lemma load_env_none_ambiguous_witness :
  load_env ∅ (<["NOVA_ACT_API_KEY" := "None"]> ∅) []
  = load_env ∅ (delete "NOVA_ACT_API_KEY" ∅) [].
Proof. apply (load_env_none_ambiguous ∅ ∅ []). reflexivity. Defined.

(** ** Running [main] *)



Lemma acts_of_app (tr1 tr2 : list event) :
  acts_of (tr1 ++ tr2) = acts_of tr1 ++ acts_of tr2.
Proof. apply omap_app. Qed.

Lemma prints_of_app (tr1 tr2 : list event) :
  prints_of (tr1 ++ tr2) = prints_of tr1 ++ prints_of tr2.
Proof. apply omap_app. Qed.

Lemma sessions_of_app (tr1 tr2 : list event) :
  sessions_of (tr1 ++ tr2) = sessions_of tr1 ++ sessions_of tr2.
Proof. apply omap_app. Qed.

Lemma prompts_of_app (tr1 tr2 : list event) :
  prompts_of (tr1 ++ tr2) = prompts_of tr1 ++ prompts_of tr2.
Proof. apply omap_app. Qed.

Lemma inputs_of_app (tr1 tr2 : list event) :
  inputs_of (tr1 ++ tr2) = inputs_of tr1 ++ inputs_of tr2.
Proof. apply omap_app. Qed.

Lemma acts_of_printed (out : list printed) : acts_of (EPrint <$> out) = [].
Proof. by induction out. Qed.

Lemma prints_of_printed (out : list printed) :
  prints_of (EPrint <$> out) = out.
Proof. induction out as [|p out IH]; [done|]. cbn. by f_equal. Qed.

Lemma sessions_of_printed (out : list printed) :
  sessions_of (EPrint <$> out) = [].
Proof. by induction out. Qed.

Lemma prompts_of_printed (out : list printed) :
  prompts_of (EPrint <$> out) = [].
Proof. by induction out. Qed.

Lemma inputs_of_printed (out : list printed) :
  inputs_of (EPrint <$> out) = [].
Proof. by induction out. Qed.

Lemma printed_not_session (out : list printed) :
  Forall (λ ev, is_session_event ev = false) (EPrint <$> out).
Proof. by induction out; constructor. Qed.

Create Rewrite HintDb trace.
#[local] Hint Rewrite acts_of_app prints_of_app sessions_of_app
  prompts_of_app inputs_of_app acts_of_printed prints_of_printed
  sessions_of_printed prompts_of_printed inputs_of_printed : trace.

(** The body of the session, one case for each place where it can end. *)
Lemma session_body_run (w : World) (h : bool) (s : string)
    (tr : list event) :
  session_body w h s tr =
  match agent w open_marketplace with
  | ActFailed msg =>
      (tr ++ [EAct open_marketplace false], Uncaught (ActError msg))
  | Replied _ =>
  match agent w (search_for s) with
  | ActFailed msg =>
      (tr ++ [EAct open_marketplace false; EAct (search_for s) false],
       Uncaught (ActError msg))
  | Replied _ =>
  match agent w open_sale_date with
  | ActFailed msg =>
      (tr ++ [EAct open_marketplace false; EAct (search_for s) false;
              EAct open_sale_date false],
       Uncaught (ActError msg))
  | Replied _ =>
  match agent w last_24_hours with
  | ActFailed msg =>
      (tr ++ [EAct open_marketplace false; EAct (search_for s) false;
              EAct open_sale_date false; EAct last_24_hours false],
       Uncaught (ActError msg))
  | Replied _ =>
  match agent w extract_items with
  | ActFailed msg =>
      (tr ++ [EAct open_marketplace false; EAct (search_for s) false;
              EAct open_sale_date false; EAct last_24_hours false;
              EAct extract_items true],
       Uncaught (ActError msg))
  | Replied res =>
      match (main_tail res []).2 with
      | Raised e =>
          (tr ++ [EAct open_marketplace false; EAct (search_for s) false;
                  EAct open_sale_date false; EAct last_24_hours false;
                  EAct extract_items true]
              ++ (EPrint <$> (main_tail res []).1),
           Uncaught (ValidationFault e))
      | Normal _ =>
          (tr ++ [EAct open_marketplace false; EAct (search_for s) false;
                  EAct open_sale_date false; EAct last_24_hours false;
                  EAct extract_items true]
              ++ (EPrint <$> (main_tail res []).1)
              ++ (if h then []
                  else [EInput "Press Enter to close the browser..."]),
           Returned ())
      end
  end end end end end.
Proof.
  unfold session_body, act, lift_Py, input, emit, throw, mbind, Proc_bind,
    mret, Proc_ret.
  destruct (agent w open_marketplace); [|done].
  destruct (agent w (search_for s)); [|by rewrite <- !app_assoc].
  destruct (agent w open_sale_date); [|by rewrite <- !app_assoc].
  destruct (agent w last_24_hours); [|by rewrite <- !app_assoc].
  destruct (agent w extract_items) as [res|]; [|by rewrite <- !app_assoc].
  destruct (main_tail res []) as [out [a|e]]; cbn [fst snd];
    [|by rewrite <- !app_assoc].
  destruct h; cbn [negb]; rewrite <- !app_assoc; cbn [app];
    by rewrite ?app_nil_r.
Qed.

(** [main], up to the body of the session. *)
Lemma main_run (w : World) (udd : option string) (hl : option bool)
    (s : string) (tr : list event) :
  main w udd hl s tr =
  match match udd with
        | Some dir => Some dir
        | None =>
            match environ w !! "USER_DATA_DIR" with
            | Some dir => Some dir
            | None => dotenv w !! "USER_DATA_DIR"
            end
        end with
  | None => (tr, Uncaught (ValueError user_data_dir_error))
  | Some dir =>
      let mode :=
        match hl with
        | Some b => b
        | None =>
            negb match fzf_selection w with
                 | [] => false
                 | first :: _ => str_contains "Visible" first
                 end
        end in
      let run :=
        session_body w mode s
          (tr ++ match hl with
                 | Some _ => []
                 | None =>
                     [EPrompt mode_options "--prompt='Select browser mode: '"]
                 end
              ++ [EStart "https://facebook.com" dir mode false]) in
      (run.1 ++ [EStop], run.2)
  end.
Proof.
  unfold main. rewrite os_getenv_precedence.
  unfold with_NovaAct, fzf_prompt, emit, throw, mbind, Proc_bind, mret,
    Proc_ret.
  destruct udd as [dir|];
    [|destruct (environ w !! "USER_DATA_DIR") as [dir|];
      [|destruct (dotenv w !! "USER_DATA_DIR") as [dir|]; [|done]]];
    (destruct hl as [b|];
     [|destruct (match fzf_selection w with
                 | [] => false
                 | first :: _ => str_contains "Visible" first
                 end)];
     cbn [negb app]; rewrite <- ?app_assoc; cbn [app];
     by destruct (session_body w _ s _)).
Qed.

(** Every way a run of the session body can go. *)
Ltac session_cases w s :=
  rewrite ?session_body_run;
  destruct (agent w open_marketplace) as [?|?] eqn:?;
  [destruct (agent w (search_for s)) as [?|?] eqn:?;
   [destruct (agent w open_sale_date) as [?|?] eqn:?;
    [destruct (agent w last_24_hours) as [?|?] eqn:?;
     [destruct (agent w extract_items) as [res|?] eqn:?;
      [destruct (main_tail res []) as [out [?|?]]|]|]|]|]|];
  cbn [fst snd].

(** ** Properties of [main] *)

(** X8: [main] ends with a [ValueError] exactly when no directory is given
    as a parameter and neither the process environment nor the [.env] file
    sets [USER_DATA_DIR]; the message is the one of line 50, and nothing
    has happened by then: no picker, no browser, no instruction. *)
Theorem main_value_error (w : World) (udd : option string)
    (hl : option bool) (s msg : string) :
  (main w udd hl s []).2 = Uncaught (ValueError msg) ↔
  udd = None ∧
  environ w !! "USER_DATA_DIR" = None ∧
  dotenv w !! "USER_DATA_DIR" = None ∧
  msg = user_data_dir_error ∧
  (main w udd hl s []).1 = [].
Proof.
  rewrite !main_run.
  destruct udd as [dir|];
    [|destruct (environ w !! "USER_DATA_DIR") as [dir|];
      [|destruct (dotenv w !! "USER_DATA_DIR") as [dir|]]];
    cbn zeta; cbn [fst snd].
  4: { split; [by intros [= <-] | by intros (_ & _ & _ & -> & _)]. }
  all: split; [|by intros (? & ? & ? & _)].
  all: session_cases w s; done.
Qed.

Lemma session_body_extends (w : World) (h : bool) (s : string)
    (tr : list event) :
  session_body w h s tr =
  (tr ++ (session_body w h s []).1, (session_body w h s []).2).
Proof. rewrite !session_body_run. by session_cases w s. Qed.

Lemma main_trace (w : World) (udd : option string) (hl : option bool)
    (s : string) :
  main w udd hl s [] =
  match match udd with
        | Some dir => Some dir
        | None =>
            match environ w !! "USER_DATA_DIR" with
            | Some dir => Some dir
            | None => dotenv w !! "USER_DATA_DIR"
            end
        end with
  | None => ([], Uncaught (ValueError user_data_dir_error))
  | Some dir =>
      let mode :=
        match hl with
        | Some b => b
        | None =>
            negb match fzf_selection w with
                 | [] => false
                 | first :: _ => str_contains "Visible" first
                 end
        end in
      (match hl with
       | Some _ => []
       | None => [EPrompt mode_options "--prompt='Select browser mode: '"]
       end
       ++ [EStart "https://facebook.com" dir mode false]
       ++ (session_body w mode s []).1 ++ [EStop],
       (session_body w mode s []).2)
  end.
Proof.
  rewrite main_run.
  destruct (match udd with Some dir => Some dir | None => _ end); [|done].
  cbn zeta. rewrite session_body_extends. cbn [fst snd app].
  by rewrite <- !app_assoc.
Qed.

Lemma session_body_no_session_event (w : World) (h : bool) (s : string) :
  Forall (λ ev, is_session_event ev = false) (session_body w h s []).1.
Proof.
  rewrite session_body_run. session_cases w s; cbn [app];
    repeat (apply Forall_cons; split; [done|]);
    try apply Forall_nil_2.
  - apply Forall_app. split; [apply printed_not_session|].
    destruct h; by repeat constructor.
  - apply printed_not_session.
Qed.

Lemma session_body_quiet (w : World) (h : bool) (s : string) :
  Forall (λ ev, is_session_event ev = false) (session_body w h s []).1 ∧
  sessions_of (session_body w h s []).1 = [] ∧
  prompts_of (session_body w h s []).1 = [].
Proof.
  split; [apply session_body_no_session_event|].
  rewrite session_body_run.
  session_cases w s; autorewrite with trace; by destruct h.
Qed.

(** X9: the browser profile is taken from the parameter when there is
    one, else from the process environment, else from the [.env] file, in
    this order, and exactly one session is started with it; with none of
    the three no session is started. *)
Theorem main_user_data_dir_precedence (w : World) (udd : option string)
    (hl : option bool) (s : string) :
  fst <$> sessions_of (main w udd hl s []).1 =
  match udd with
  | Some dir => [dir]
  | None =>
      match environ w !! "USER_DATA_DIR" with
      | Some dir => [dir]
      | None =>
          match dotenv w !! "USER_DATA_DIR" with
          | Some dir => [dir]
          | None => []
          end
      end
  end.
Proof.
  rewrite main_trace.
  destruct (session_body_quiet w
              match hl with
              | Some b => b
              | None =>
                  negb match fzf_selection w with
                       | [] => false
                       | first :: _ => str_contains "Visible" first
                       end
              end s) as (_ & Hquiet & _).
  destruct udd as [dir|];
    [|destruct (environ w !! "USER_DATA_DIR") as [dir|];
      [|destruct (dotenv w !! "USER_DATA_DIR") as [dir|]; [|done]]];
    cbn zeta; cbn [fst]; autorewrite with trace; rewrite Hquiet;
    by destruct hl.
Qed.


(** X11: the session is always stopped.  Unless [main] ends before it
    starts the browser, its events are those before the session, the
    start of the one session on [https://facebook.com] with the profile
    not cloned, the events of the body, and the stop of the session as the
    very last event; this holds however the body ends, by a return, by a
    failed instruction or by a validation fault. *)
Theorem main_session_bracketed (w : World) (udd : option string)
    (hl : option bool) (s : string) :
  (main w udd hl s []).1 = [] ∨
  ∃ (before : list event) (dir : string) (mode : bool) (body : list event),
    (main w udd hl s []).1 =
      before ++ [EStart "https://facebook.com" dir mode false]
             ++ body ++ [EStop] ∧
    Forall (λ ev, is_session_event ev = false) (before ++ body).
Proof.
  rewrite main_trace.
  destruct (match udd with Some dir => Some dir | None => _ end) as [dir|];
    [right|by left].
  cbn zeta. cbn [fst]. eexists _, dir, _, _. split; [done|].
  apply Forall_app. split; [by destruct hl; repeat constructor|].
  apply session_body_quiet.
Qed.

Lemma session_body_script (w : World) (h : bool) (s : string) :
  acts_of (session_body w h s []).1 `prefix_of` script s ∧
  match (session_body w h s []).2 with
  | Uncaught (ValueError _) => False
  | Uncaught (ActError msg) =>
      ∃ (instruction : string) (with_schema : bool),
        last (acts_of (session_body w h s []).1)
          = Some (instruction, with_schema) ∧
        agent w instruction = ActFailed msg ∧
        prints_of (session_body w h s []).1 = []
  | _ => acts_of (session_body w h s []).1 = script s
  end.
Proof.
  rewrite session_body_run.
  session_cases w s; autorewrite with trace;
    try (destruct h); cbn; rewrite ?app_nil_r;
    (split; [unfold script; by eexists|]); try done;
    by eexists _, _.
Qed.

(** X12: the agent is given the five instructions of the script, in
    order, the search with the item between quotes and only the last
    instruction with the schema, and nothing else.  A run gives all five
    unless an instruction fails; then the failed instruction is the last
    one given, its error is the one [main] ends with, and nothing has been
    printed. *)
Theorem main_follows_script (w : World) (udd : option string)
    (hl : option bool) (s : string) :
  acts_of (main w udd hl s []).1 `prefix_of` script s ∧
  match (main w udd hl s []).2 with
  | Uncaught (ValueError _) => acts_of (main w udd hl s []).1 = []
  | Uncaught (ActError msg) =>
      ∃ (instruction : string) (with_schema : bool),
        last (acts_of (main w udd hl s []).1)
          = Some (instruction, with_schema) ∧
        agent w instruction = ActFailed msg ∧
        prints_of (main w udd hl s []).1 = []
  | _ => acts_of (main w udd hl s []).1 = script s
  end.
Proof.
  rewrite main_trace.
  destruct (match udd with Some dir => Some dir | None => _ end) as [dir|];
    [|split; [apply prefix_nil | done]].
  cbn zeta. cbn [fst snd]. set (mode := match hl with Some b => b | None => _ end).
  assert (∀ body : list event,
            acts_of (match hl with
                     | Some _ => []
                     | None =>
                         [EPrompt mode_options
                            "--prompt='Select browser mode: '"]
                     end
                     ++ [EStart "https://facebook.com" dir mode false]
                     ++ body ++ [EStop]) = acts_of body
            ∧ prints_of (match hl with
                         | Some _ => []
                         | None =>
                             [EPrompt mode_options
                                "--prompt='Select browser mode: '"]
                         end
                         ++ [EStart "https://facebook.com" dir mode false]
                         ++ body ++ [EStop]) = prints_of body) as Hframe.
  { intros body. autorewrite with trace.
    destruct hl; cbn; by rewrite !app_nil_r. }
  destruct (Hframe (session_body w mode s []).1) as [-> ->].
  destruct (session_body_script w mode s) as [Hprefix Hend].
  split; [done|].
  by destruct (session_body w mode s []).2 as [?|[?|?|?]].
Qed.

Lemma session_body_inputs (w : World) (h : bool) (s : string) :
  inputs_of (session_body w h s []).1 =
  match (session_body w h s []).2, h with
  | Returned _, false => ["Press Enter to close the browser..."]
  | _, _ => []
  end.
Proof.
  rewrite session_body_run.
  session_cases w s; autorewrite with trace; by destruct h.
Qed.

(** X13: [main] waits for Enter exactly when the browser is visible and
    the body of the session has come to its end: once, with the prompt of
    line 133.  It never waits in headless mode, and never after a failed
    instruction or a validation fault. *)
Theorem main_waits_for_enter (w : World) (udd : option string)
    (hl : option bool) (s : string) :
  inputs_of (main w udd hl s []).1 =
  match (main w udd hl s []).2, snd <$> sessions_of (main w udd hl s []).1
  with
  | Returned _, [false] => ["Press Enter to close the browser..."]
  | _, _ => []
  end.
Proof.
  rewrite main_trace.
  destruct (match udd with Some dir => Some dir | None => _ end) as [dir|];
    [|done].
  cbn zeta. cbn [fst snd]. set (mode := match hl with Some b => b | None => _ end).
  destruct (session_body_quiet w mode s) as (_ & Hs & _).
  autorewrite with trace. rewrite Hs, session_body_inputs.
  destruct hl; cbn; rewrite ?app_nil_r;
    by destruct (session_body w mode s []).2, mode.
Qed.


